(** * Text-entry service: a shallow embedding of [main.py]

    The service keeps short text entries in one relational table and
    serves them over two HTTP routes.  The embedding follows the module
    top to bottom: the configuration constants and the connection string,
    the engine constructor, the [entries] table, [init_db] with its retry
    loop, the request schemas, the [get_db] dependency, the startup hook
    and the two route handlers.

    Python code with effects is written in a small state-and-exception
    monad over a [World]: the storage engine (an external collaborator,
    modelled by the contract of the declared table), the objects of the
    process (ORM instances and sessions, by reference) and the log of the
    effects an observer can see. *)

From Stdlib Require Import ZArith NArith List String Ascii Bool Lia.
From stdpp Require Import base option list strings pretty gmap.

Local Open Scope Z_scope.

(** ** Exceptions *)

(** The exception classes the module can meet.  [OperationalError] is
    SQLAlchemy's class for connection-level failures; [DataError] is what
    the engine answers to a value that does not fit its column. *)
Inductive exn_class :=
| OperationalError
| DataError
| ProgrammingError
| ValueError
| RequestValidationError
| ResponseValidationError
| RuntimeError
| OverflowError
| ArgumentError.

#[global] Instance exn_class_eq_dec : EqDecision exn_class.
Proof. solve_decision. Defined.

(** An exception instance: its class and its message. *)
Record exn := Exn { exn_cls : exn_class; exn_msg : string }.

#[global] Instance exn_eq_dec : EqDecision exn.
Proof. solve_decision. Defined.

(** [isinstance(e, cls)]: none of the classes above derives from another
    one of them. *)
Definition exn_class_eqb (a b : exn_class) : bool :=
  match a, b with
  | OperationalError, OperationalError
  | DataError, DataError
  | ProgrammingError, ProgrammingError
  | ValueError, ValueError
  | RequestValidationError, RequestValidationError
  | ResponseValidationError, ResponseValidationError
  | RuntimeError, RuntimeError
  | OverflowError, OverflowError
  | ArgumentError, ArgumentError => true
  | _, _ => false
  end.

Definition isinstance (e : exn) (cls : exn_class) : bool :=
  exn_class_eqb (exn_cls e) cls.

(** The outcome of running a piece of Python: a value or a raised
    exception. *)
Inductive result (A : Type) :=
| Return (a : A)
| Raise (e : exn).
Arguments Return {A} a.
Arguments Raise {A} e.

(** ** Data model *)

(** A persisted row of table [entries]:
    [id INTEGER PRIMARY KEY], [content VARCHAR(255) NOT NULL]. *)
Record Row := mkRow { row_id : Z; row_content : string }.

#[global] Instance Row_eq_dec : EqDecision Row.
Proof. solve_decision. Defined.

(** An instance of the mapped class [TextEntry].  Its [id] is [None]
    until the engine has assigned one. *)
Module TextEntry.
Record t := mk { id : option Z; content : string }.
End TextEntry.

(** A session of [SessionLocal]: whether it has been closed, and the
    references of the instances added to it that are not flushed yet. *)
Record SessionState := mkSession { closed : bool; pending : list nat }.

(** ** Observable effects *)

(** What the module prints. *)
Inductive message :=
| MsgInitialized (attempt_no : Z)
    (* Database initialized successfully on attempt {attempt + 1} *)
| MsgRetrying (attempt_no : Z) (delay : N)
    (* Database connection attempt {attempt + 1} failed. Retrying in {delay}s... *)
| MsgRetryingSigned (attempt_no : Z) (delay : Z)
    (* the same message, for a delay below zero *)
| MsgGivingUp (retries : Z).
    (* Failed to connect to database after {retries} attempts *)

(** What the process does to the outside, in the order it happens. *)
Inductive event :=
| EvCreateAll                      (* Base.metadata.create_all(bind=engine) is entered *)
| EvPrint (m : message)
| EvSleep (seconds : N)            (* time.sleep(seconds) *)
| EvSessionOpen (s : nat)          (* SessionLocal() *)
| EvSessionClose (s : nat)         (* db.close() *)
| EvInsert (c : string)            (* INSERT INTO entries (content) VALUES (c) *)
| EvCommit                         (* COMMIT *)
| EvSelectById (i : Z)             (* SELECT ... FROM entries WHERE id = i *)
| EvSelectAll.                     (* SELECT ... FROM entries *)

(** A storage operation is a statement sent to the engine on behalf of
    a request. *)
Definition is_storage_op (e : event) : bool :=
  match e with
  | EvInsert _ | EvCommit | EvSelectById _ | EvSelectAll => true
  | _ => false
  end.

(** ** The world *)

Record World := mkWorld {
  (* the storage engine *)
  rows : list Row;                 (* table entries, in the order the engine returns it *)
  auto_increment : Z;              (* the next id the engine assigns *)
  ddl_outcome : nat -> option exn; (* what the n-th call of create_all meets: None when
                                      the engine is reached, Some e when e is raised *)
  ddl_calls : nat;                 (* calls of create_all so far *)
  (* the process *)
  heap : list TextEntry.t;           (* TextEntry instances, by reference *)
  sessions : list SessionState;    (* sessions, by reference *)
  (* the outside *)
  trace : list event
}.

Definition set_rows (f : list Row -> list Row) (w : World) : World :=
  mkWorld (f (rows w)) (auto_increment w) (ddl_outcome w) (ddl_calls w)
          (heap w) (sessions w) (trace w).
Definition set_auto_increment (f : Z -> Z) (w : World) : World :=
  mkWorld (rows w) (f (auto_increment w)) (ddl_outcome w) (ddl_calls w)
          (heap w) (sessions w) (trace w).
Definition set_ddl_calls (f : nat -> nat) (w : World) : World :=
  mkWorld (rows w) (auto_increment w) (ddl_outcome w) (f (ddl_calls w))
          (heap w) (sessions w) (trace w).
Definition set_heap (f : list TextEntry.t -> list TextEntry.t) (w : World) : World :=
  mkWorld (rows w) (auto_increment w) (ddl_outcome w) (ddl_calls w)
          (f (heap w)) (sessions w) (trace w).
Definition set_sessions (f : list SessionState -> list SessionState) (w : World) : World :=
  mkWorld (rows w) (auto_increment w) (ddl_outcome w) (ddl_calls w)
          (heap w) (f (sessions w)) (trace w).
Definition emit (e : event) (w : World) : World :=
  mkWorld (rows w) (auto_increment w) (ddl_outcome w) (ddl_calls w)
          (heap w) (sessions w) (trace w ++ [e]).

(** ** The monad *)

Definition M (A : Type) : Type := World -> result A * World.

Definition ret {A} (a : A) : M A := fun w => (Return a, w).

Definition bind {A B} (m : M A) (k : A -> M B) : M B :=
  fun w => match m w with
           | (Return a, w') => k a w'
           | (Raise e, w') => (Raise e, w')
           end.

Definition raise {A} (e : exn) : M A := fun w => (Raise e, w).

Definition effect (f : World -> World) : M unit := fun w => (Return tt, f w).

Definition gets {A} (f : World -> A) : M A := fun w => (Return (f w), w).

(** [try: body  except cls as e: handler e]: an exception of another
    class passes through. *)
Definition try_except {A} (body : M A) (cls : exn_class) (handler : exn -> M A) : M A :=
  fun w => match body w with
           | (Return a, w') => (Return a, w')
           | (Raise e, w') =>
               if isinstance e cls then handler e w' else (Raise e, w')
           end.

(** [try: body  finally: final]: [final] runs on both exits; what the
    body returned or raised goes on afterwards, unless [final] raises. *)
Definition try_finally {A} (body : M A) (final : M unit) : M A :=
  fun w => match body w with
           | (r, w') =>
               match final w' with
               | (Return _, w'') => (r, w'')
               | (Raise e, w'') => (Raise e, w'')
               end
           end.

Declare Scope py_scope.
Delimit Scope py_scope with py.
Notation "x <- c1 ;; c2" := (bind c1 (fun x => c2))
  (at level 100, c1 at next level, right associativity) : py_scope.
Notation "c1 ;; c2" := (bind c1 (fun _ => c2))
  (at level 100, right associativity) : py_scope.
Local Open Scope py_scope.

(** ** Library calls *)

Definition print (m : message) : M unit := effect (emit (EvPrint m)).

(** [time.sleep(seconds)].  A duration is not negative ([time.sleep]
    refuses a negative one with [ValueError]); durations are counted in
    whole seconds here. *)
Definition time_sleep (seconds : N) : M unit := effect (emit (EvSleep seconds)).

(** [range(n)]: 0, 1, ..., n - 1, and nothing when [n <= 0]. *)
Definition range (n : Z) : list Z := map Z.of_nat (seq 0 (Z.to_nat n)).

(** [Base.metadata.create_all(bind=engine)]: CREATE TABLE IF NOT EXISTS
    for the declared table.  It needs the engine; what the call meets is
    the world's to say.  When it succeeds the rows are as they were. *)
Definition create_all : M unit :=
  fun w =>
    let w' := set_ddl_calls S (emit EvCreateAll w) in
    match ddl_outcome w (ddl_calls w) with
    | None => (Return tt, w')
    | Some e => (Raise e, w')
    end.

(** ** [init_db] *)

(** How one turn of the [for] loop ends: with [return], or by going on
    to the next turn. *)
Inductive loop_exit := LoopReturn | LoopContinue.

Fixpoint init_db_loop (retries : Z) (delay : N) (attempts : list Z) : M unit :=
  match attempts with
  | [] => ret tt
  | attempt :: rest =>
      c <- try_except
             (create_all ;;
              print (MsgInitialized (attempt + 1)) ;;
              ret LoopReturn)
             OperationalError
             (fun e =>
                if attempt <? retries - 1 then
                  print (MsgRetrying (attempt + 1) delay) ;;
                  time_sleep delay ;;
                  ret LoopContinue
                else
                  print (MsgGivingUp retries) ;;
                  raise e) ;;
      match c with
      | LoopReturn => ret tt
      | LoopContinue => init_db_loop retries delay rest
      end
  end.

Definition init_db (retries : Z) (delay : N) : M unit :=
  init_db_loop retries delay (range retries).






(** The defaults of [def init_db(retries=5, delay=2)]. *)
Definition init_db_default_retries : Z := 5.
Definition init_db_default_delay : N := 2%N.

(** [startup_event] calls [init_db()]. *)
Definition startup_event : M unit :=
  init_db init_db_default_retries init_db_default_delay.

(** ** The engine's side of the table *)

(** The engine is modelled by what the declared table promises: ids
    assigned by the engine (unbounded integers here), a content of at
    most 255 characters, statements that are answered.  A connection that
    breaks while a request is served is outside this model; at startup
    it is what [ddl_outcome] describes. *)

(** [String(255)]: the width of column [content], in characters; a
    string is the sequence of its characters. *)
Definition content_max_length : nat := 255.

(** The largest id in the table, and 0 for the empty table. *)
Definition max_id (rs : list Row) : Z :=
  fold_right (fun r m => Z.max (row_id r) m) 0 rs.

(** The id the engine assigns next.  The engine keeps its counter above
    every id of the table, whoever wrote the rows. *)
Definition next_id (w : World) : Z :=
  Z.max (auto_increment w) (max_id (rows w) + 1).

(** INSERT INTO entries (content) VALUES (c).  The engine assigns the
    next id.  A value wider than the column is refused (the engine's
    strict mode, its default) and leaves the table as it was. *)
Definition engine_insert (c : string) : M Z :=
  effect (emit (EvInsert c)) ;;
  if (content_max_length <? String.length c)%nat then
    raise (Exn DataError "Data too long for column 'content'")
  else
    i <- gets next_id ;;
    effect (set_rows (fun rs => rs ++ [mkRow i c])) ;;
    effect (set_auto_increment (fun _ => i + 1)) ;;
    ret i.

(** SELECT ... WHERE id = i. *)
Definition engine_select_by_id (i : Z) : M (option Row) :=
  effect (emit (EvSelectById i)) ;;
  rs <- gets rows ;;
  ret (find (fun r => row_id r =? i) rs).

(** SELECT of the whole table, in the engine's order. *)
Definition engine_select_all : M (list Row) :=
  effect (emit EvSelectAll) ;;
  gets rows.

(** ** Instances and sessions *)

(** [TextEntry(content=c)]: a new instance, not yet persisted. *)
Definition TextEntry_new (c : string) : M nat :=
  r <- gets (fun w => length (heap w)) ;;
  effect (set_heap (fun h => h ++ [TextEntry.mk None c])) ;;
  ret r.

Definition heap_get (r : nat) : M TextEntry.t :=
  h <- gets heap ;;
  match h !! r with
  | Some o => ret o
  | None => raise (Exn RuntimeError "dangling reference")
  end.

Definition heap_set (r : nat) (o : TextEntry.t) : M unit :=
  effect (set_heap (fun h => <[r := o]> h)).

(** The instance a row loads into. *)
Definition TextEntry_of_row (r : Row) : TextEntry.t :=
  TextEntry.mk (Some (row_id r)) (row_content r).

(** [SessionLocal()]: a new session.  Nothing is sent to the engine. *)
Definition SessionLocal : M nat :=
  s <- gets (fun w => length (sessions w)) ;;
  effect (set_sessions (fun ss => ss ++ [mkSession false []])) ;;
  effect (emit (EvSessionOpen s)) ;;
  ret s.

Definition session_get (db : nat) : M SessionState :=
  ss <- gets sessions ;;
  match ss !! db with
  | Some s => ret s
  | None => raise (Exn RuntimeError "dangling reference")
  end.

(** [db.add(obj)] *)
Definition db_add (db : nat) (obj : nat) : M unit :=
  effect (set_sessions (alter (fun s => mkSession (closed s) (pending s ++ [obj])) db)).

(** The flush of a commit: one INSERT for each pending instance, which
    receives the id the engine assigned. *)
Fixpoint flush (objs : list nat) : M unit :=
  match objs with
  | [] => ret tt
  | obj :: rest =>
      o <- heap_get obj ;;
      i <- engine_insert (TextEntry.content o) ;;
      heap_set obj (TextEntry.mk (Some i) (TextEntry.content o)) ;;
      flush rest
  end.

(** [db.commit()]: flush, then COMMIT.  When the flush raises, the
    transaction is rolled back: the table is as it was before, and the
    exception goes on. *)
Definition db_commit (db : nat) : M unit :=
  s <- session_get db ;;
  saved <- gets rows ;;
  fun w =>
    match flush (pending s) w with
    | (Return _, w') =>
        (Return tt,
         emit EvCommit
           (set_sessions (alter (fun s => mkSession (closed s) []) db) w'))
    | (Raise e, w') => (Raise e, set_rows (fun _ => saved) w')
    end.

(** [db.refresh(obj)]: load the attributes again from the row with the
    instance's primary key. *)
Definition db_refresh (db : nat) (obj : nat) : M unit :=
  o <- heap_get obj ;;
  match TextEntry.id o with
  | None => raise (Exn RuntimeError "Instance is not persistent within this Session")
  | Some i =>
      row <- engine_select_by_id i ;;
      match row with
      | Some r => heap_set obj (TextEntry_of_row r)
      | None => raise (Exn RuntimeError "Could not refresh instance")
      end
  end.

(** [db.query(TextEntry).all()]: one instance for each row of the
    table, in the order the engine returns them. *)
Definition db_query_all (db : nat) : M (list nat) :=
  rs <- engine_select_all ;;
  r <- gets (fun w => length (heap w)) ;;
  effect (set_heap (fun h => h ++ map TextEntry_of_row rs)) ;;
  ret (seq r (length rs)).

(** [db.close()]: the session drops what it holds and gives its
    connection back. *)
Definition db_close (db : nat) : M unit :=
  effect (set_sessions (alter (fun _ => mkSession true []) db)) ;;
  effect (emit (EvSessionClose db)).

(** ** JSON and the schemas *)

Local Unset Elimination Schemes.
(** A parsed JSON value; an object is the dict it parses to, a number
    is an integer. *)
Inductive json :=
| JNull
| JBool (b : bool)
| JNum (n : Z)
| JStr (s : string)
| JArr (items : list json)
| JObj (fields : gmap string json).
Local Set Elimination Schemes.

Module EntryIn.
(** [class EntryIn(BaseModel): content: str] *)
Record t := mk { content : string }.

(** Validation of a request body: a JSON object whose field
    [content] is a string.  Other fields are ignored; a value of
    another JSON type is not converted. *)
Definition validate (body : json) : option t :=
  match body with
  | JObj fields =>
      match fields !! "content"%string with
      | Some (JStr s) => Some (mk s)
      | _ => None
      end
  | _ => None
  end.
End EntryIn.

Module EntryOut.
(** [class EntryOut(BaseModel): id: int; content: str], read from the
    attributes of an instance. *)
Record t := mk { id : Z; content : string }.

Definition to_json (e : t) : json :=
  JObj (<["id"%string := JNum (id e)]>
        (<["content"%string := JStr (content e)]> ∅)).

Definition from_attributes (o : TextEntry.t) : option t :=
  match TextEntry.id o with
  | Some i => Some (mk i (TextEntry.content o))
  | None => None
  end.
End EntryOut.

(** ** The dependency [get_db] *)

(** [db = SessionLocal(); try: yield db; finally: db.close()].  The
    framework runs what depends on the session at the [yield]: [k] is
    that code, and an exception it raises is thrown into the generator
    at the [yield]. *)
Definition get_db {A} (k : nat -> M A) : M A :=
  db <- SessionLocal ;;
  try_finally (k db) (db_close db).

(** ** Routes *)

(** [create_entry(entry, db)] *)
Definition create_entry (entry : EntryIn.t) (db : nat) : M nat :=
  db_entry <- TextEntry_new (EntryIn.content entry) ;;
  db_add db db_entry ;;
  db_commit db ;;
  db_refresh db db_entry ;;
  ret db_entry.

(** [read_entries(db)] *)
Definition read_entries (db : nat) : M (list nat) :=
  db_query_all db.

(** [response_model=EntryOut]: the returned instance is read into the
    schema and written as JSON. *)
Definition serialize_entry (obj : nat) : M json :=
  o <- heap_get obj ;;
  match EntryOut.from_attributes o with
  | Some e => ret (EntryOut.to_json e)
  | None => raise (Exn ResponseValidationError "id: Input should be a valid integer")
  end.

(** [response_model=list[EntryOut]] *)
Fixpoint serialize_entries (objs : list nat) : M (list json) :=
  match objs with
  | [] => ret []
  | obj :: rest =>
      j <- serialize_entry obj ;;
      js <- serialize_entries rest ;;
      ret (j :: js)
  end.

(** What the client receives. *)
Inductive response :=
| Response200 (body : json)
| Response422                (* the request did not validate *)
| Response500 (e : exn).     (* an exception left the handler *)

Definition respond (r : result json * World) : response * World :=
  match r with
  | (Return j, w) => (Response200 j, w)
  | (Raise e, w) =>
      (if isinstance e RequestValidationError then Response422 else Response500 e, w)
  end.

(** POST /entries/ as the framework runs it: the dependencies are
    solved, then the body is validated against [EntryIn]; the handler
    is called only when that succeeded. *)
Definition post_entries (body : json) : World -> response * World :=
  fun w =>
    respond
      (get_db (fun db =>
         match EntryIn.validate body with
         | None => raise (Exn RequestValidationError "content")
         | Some entry =>
             obj <- create_entry entry db ;;
             serialize_entry obj
         end) w).

(** GET /entries/ *)
Definition get_entries : World -> response * World :=
  fun w =>
    respond
      (get_db (fun db =>
         objs <- read_entries db ;;
         js <- serialize_entries objs ;;
         ret (JArr js)) w).

Inductive request :=
| POST_entries (body : json)
| GET_entries.

Definition handle (r : request) : World -> response * World :=
  match r with
  | POST_entries body => post_entries body
  | GET_entries => get_entries
  end.

(** Requests served one after the other. *)
Fixpoint serve (reqs : list request) (w : World) : list response * World :=
  match reqs with
  | [] => ([], w)
  | r :: rest =>
      let (resp, w') := handle r w in
      let (resps, w'') := serve rest w' in
      (resp :: resps, w'')
  end.

(** ** Configuration *)

(** [os.getenv(name)]: [None] when the variable is not set.  [environ]
    is the environment of the process once [load_dotenv()] has run. *)
Definition os_getenv (environ : gmap string string) (name : string) : option string :=
  environ !! name.

(** How an f-string writes a value that is a string or [None]. *)
Definition format_value (v : option string) : string :=
  match v with
  | Some s => s
  | None => "None"
  end.

(** [DATABASE_URL], from the five variables of the environment. *)
Definition DATABASE_URL (environ : gmap string string) : string :=
  let DB_HOST := os_getenv environ "DB_HOST" in
  let DB_PORT := os_getenv environ "DB_PORT" in
  let DB_NAME := os_getenv environ "DB_NAME" in
  let DB_USER := os_getenv environ "DB_USER" in
  let DB_PASSWORD := os_getenv environ "DB_PASSWORD" in
  "mysql+pymysql://" +:+ format_value DB_USER +:+ ":" +:+ format_value DB_PASSWORD
    +:+ "@" +:+ format_value DB_HOST +:+ ":" +:+ format_value DB_PORT
    +:+ "/" +:+ format_value DB_NAME.

(** ** The engine constructor *)

(** [create_engine(url)] opens no connection, but it reads the URL at
    once with SQLAlchemy's pattern
    [name://[user[:password]@][host][:port][/database][?query]], and a
    port that is written must pass [int].  A character of a string is a
    code point below 256. *)

Definition in_range (lo hi : nat) (c : ascii) : bool :=
  ((lo <=? nat_of_ascii c) && (nat_of_ascii c <=? hi))%nat.

Definition is_char (x : ascii) (c : ascii) : bool := Ascii.eqb x c.

Definition is_digit (c : ascii) : bool := in_range 48 57 c.

(** [\w] and [+], the characters of the scheme name. *)
Definition is_name_char (c : ascii) : bool :=
  is_digit c || in_range 65 90 c || in_range 97 122 c
  || is_char "_" c || is_char "+" c.

(** The whitespace [int] skips around a number: the blanks of ASCII,
    and next line and no-break space. *)
Definition is_space (c : ascii) : bool :=
  in_range 9 13 c || in_range 32 32 c || in_range 133 133 c || in_range 160 160 c.

(** The longest prefix of characters that satisfy [p], and the rest. *)
Fixpoint span (p : ascii -> bool) (s : list ascii) : list ascii * list ascii :=
  match s with
  | [] => ([], [])
  | c :: s' =>
      if p c then let (a, b) := span p s' in (c :: a, b) else ([], s)
  end.

(** [s] cut at the first [x], when there is one. *)
Fixpoint split_first (x : ascii) (s : list ascii) : option (list ascii * list ascii) :=
  match s with
  | [] => None
  | c :: s' =>
      if is_char x c then Some ([], s')
      else match split_first x s' with
           | Some (a, b) => Some (c :: a, b)
           | None => None
           end
  end.

(** [s] cut at the last [x], when there is one. *)
Fixpoint split_last (x : ascii) (s : list ascii) : option (list ascii * list ascii) :=
  match s with
  | [] => None
  | c :: s' =>
      match split_last x s' with
      | Some (a, b) => Some (c :: a, b)
      | None => if is_char x c then Some ([], s') else None
      end
  end.

Fixpoint rstrip (s : list ascii) : list ascii :=
  match s with
  | [] => []
  | c :: s' =>
      match rstrip s' with
      | [] => if is_space c then [] else [c]
      | r => c :: r
      end
  end.

Definition strip (s : list ascii) : list ascii :=
  rstrip (snd (span is_space s)).

(** The most digits [int] converts (the default of Python 3.11). *)
Definition int_max_str_digits : nat := 4300.

(** Decimal digits, where one underscore may stand between two
    digits; [count] digits have been read. *)
Fixpoint digits_value (acc : Z) (count : nat) (after_digit : bool) (s : list ascii)
  : option Z :=
  match s with
  | [] =>
      if after_digit && (count <=? int_max_str_digits)%nat then Some acc else None
  | c :: s' =>
      if is_digit c then
        digits_value (10 * acc + (Z.of_nat (nat_of_ascii c) - 48)) (S count) true s'
      else if is_char "_" c && after_digit then digits_value acc count false s'
      else None
  end.

(** [int(s)] for a string: [None] stands for its [ValueError]. *)
Definition python_int (s : list ascii) : option Z :=
  match strip s with
  | c :: r =>
      if is_char "+" c then digits_value 0 0 false r
      else if is_char "-" c then Z.opp <$> digits_value 0 0 false r
      else digits_value 0 0 false (c :: r)
  | [] => None
  end.

(** [(?:user(?::password)?@)?], with the choices the pattern matcher
    makes: the longest user name first, the password before its
    absence. *)
Definition parse_userinfo (s : list ascii)
  : option (list ascii * option (list ascii)) * list ascii :=
  let (run, rest) := span (fun c => negb (is_char ":" c || is_char "/" c)) s in
  let without_password :=
    match split_last "@" run with
    | Some (user, after) => (Some (user, None), after ++ rest)
    | None => (None, s)
    end in
  match rest with
  | c :: rest' =>
      if is_char ":" c then
        match split_first "@" rest' with
        | Some (pw, after) => (Some (run, Some pw), after)
        | None => without_password
        end
      else without_password
  | [] => without_password
  end.

(** [(?:\[ipv6host\]|ipv4host)?] *)
Definition parse_host (s : list ascii) : option (list ascii) * list ascii :=
  let ipv4 :=
    let (h, rest) := span (fun c => negb (is_char "/" c || is_char ":" c || is_char "?" c)) s in
    match h with
    | [] => (None, s)
    | _ => (Some h, rest)
    end in
  match s with
  | c :: s' =>
      if is_char "[" c then
        let (run, rest) := span (fun c => negb (is_char "/" c || is_char "?" c)) s' in
        match split_last "]" run with
        | Some (c' :: h, after) => (Some (c' :: h), after ++ rest)
        | _ => ipv4
        end
      else ipv4
  | [] => ipv4
  end.

(** [(?::port)?] *)
Definition parse_port (s : list ascii) : option (list ascii) * list ascii :=
  match s with
  | c :: s' =>
      if is_char ":" c then
        let (p, rest) := span (fun c => negb (is_char "/" c || is_char "?" c)) s' in
        (Some p, rest)
      else (None, s)
  | [] => (None, s)
  end.

(** The text that follows the scheme name when it is followed by
    [://]. *)
Definition after_scheme (rest : list ascii) : option (list ascii) :=
  match rest with
  | c1 :: c2 :: c3 :: s =>
      if is_char ":" c1 && is_char "/" c2 && is_char "/" c3 then Some s else None
  | _ => None
  end.

(** The port as it is written in the URL: [None] when the URL does
    not match the pattern, [Some None] when it has no port. *)
Definition url_port (url : string) : option (option (list ascii)) :=
  let (name, rest) := span is_name_char (list_ascii_of_string url) in
  match name, after_scheme rest with
  | _ :: _, Some s =>
      let (_, s1) := parse_userinfo s in
      let (_, s2) := parse_host s1 in
      Some (fst (parse_port s2))
  | _, _ => None
  end.

(** The engine: lazy, it only keeps the URL it was made from. *)
Record Engine := mkEngine { engine_url : string; pool_pre_ping : bool }.

(** A URL that does not match is refused, and so is a port, were it
    the empty one, that [int] does not convert. *)
Definition create_engine (url : string) (pre_ping : bool) : result Engine :=
  match url_port url with
  | None => Raise (Exn ArgumentError "Could not parse SQLAlchemy URL from string")
  | Some None => Return (mkEngine url pre_ping)
  | Some (Some digits) =>
      match python_int digits with
      | Some _ => Return (mkEngine url pre_ping)
      | None => Raise (Exn ValueError "invalid literal for int() with base 10")
      end
  end.

(** The module-level statements up to [engine = create_engine(...)],
    run once when the module is loaded. *)
Definition load_module (environ : gmap string string) : result Engine :=
  create_engine (DATABASE_URL environ) true.

(** ** The process *)

(** How a run of the service ends: the module did not load, the startup
    hook raised, or the requests were served. *)
Inductive run_outcome :=
| LoadFailed (e : exn)
| StartupFailed (e : exn)
| Served (resps : list response).

(** The module is loaded, the startup hook runs, and only when it
    returned are requests accepted. *)
Definition run (environ : gmap string string) (reqs : list request) (w : World)
  : run_outcome * World :=
  match load_module environ with
  | Raise e => (LoadFailed e, w)
  | Return _ =>
      match startup_event w with
      | (Raise e, w') => (StartupFailed e, w')
      | (Return _, w') =>
          let (resps, w'') := serve reqs w' in (Served resps, w'')
      end
  end.

Definition example_environ : gmap string string :=
  <["DB_HOST"%string := "localhost"%string]>
  (<["DB_PORT"%string := "3306"%string]>
  (<["DB_NAME"%string := "app"%string]>
  (<["DB_USER"%string := "root"%string]>
  (<["DB_PASSWORD"%string := "secret"%string]> ∅)))).

(** ** Vocabulary of the statements *)

(** The world after [calls] more calls of [create_all] that left the
    events [t] behind, and nothing else. *)
Definition after_init (w : World) (calls : nat) (t : list event) : World :=
  mkWorld (rows w) (auto_increment w) (ddl_outcome w) (ddl_calls w + calls)
          (heap w) (sessions w) (trace w ++ t).

(** What [k] failed attempts that are followed by another one leave in
    the trace, the first of them being attempt [first]: the call, the
    message, the wait. *)
Fixpoint retry_trace (delay : N) (first : Z) (k : nat) : list event :=
  match k with
  | O => []
  | S k' =>
      [EvCreateAll; EvPrint (MsgRetrying (first + 1) delay); EvSleep delay]
        ++ retry_trace delay (first + 1) k'
  end.

(** The next [k] calls of [create_all] meet a connection-level
    failure. *)
Definition connection_fails (w : World) (k : nat) : Prop :=
  forall i, (i < k)%nat ->
    exists e, ddl_outcome w (ddl_calls w + i) = Some e /\ isinstance e OperationalError = true.

(** A world whose engine cannot be reached, and one whose engine can. *)
Definition unreachable : nat -> option exn :=
  fun n => Some (Exn OperationalError ("Can't connect to MySQL server, call " +:+ pretty n)).

Definition world_of (outcomes : nat -> option exn) (rs : list Row) (next : Z) : World :=
  mkWorld rs next outcomes 0 [] [] [].

Definition empty_world : World := world_of (fun _ => None) [] 1.

(** The world after one request: the session the request opened is
    closed, the table holds [rs] and the counter is [next], the instances
    [objs] were made, and between the opening and the closing of the
    session the engine received [t]. *)
Definition after_request (w : World) (rs : list Row) (next : Z)
    (objs : list TextEntry.t) (t : list event) : World :=
  mkWorld rs next (ddl_outcome w) (ddl_calls w)
          (heap w ++ objs)
          (sessions w ++ [mkSession true []])
          (trace w ++ EvSessionOpen (length (sessions w)) :: t
                   ++ [EvSessionClose (length (sessions w))]).

(** The JSON of an entry, and of a row. *)
Definition entry_json (i : Z) (c : string) : json :=
  EntryOut.to_json (EntryOut.mk i c).

Definition row_json (r : Row) : json := entry_json (row_id r) (row_content r).

(** A request body that carries the content [c]. *)
Definition body_of (c : string) : json := JObj {[ "content"%string := JStr c ]}.

(** The data-model invariant of the persisted entries: every content
    fits the column, and no id occurs twice.  (A content is a string: the
    column is NOT NULL and a row has no other kind of content.) *)
Definition entry_invariant (rs : list Row) : Prop :=
  Forall (fun r => (String.length (row_content r) <= content_max_length)%nat) rs
  /\ NoDup (map row_id rs).

(** The world right after [SessionLocal()]. *)
Definition session_opened (w : World) : World :=
  emit (EvSessionOpen (length (sessions w)))
    (set_sessions (fun ss => ss ++ [mkSession false []]) w).

(** Worlds to run the service in: an engine that answers the second
    call, and one whose schema call raises something else the second
    time. *)
Definition answers_second : nat -> option exn :=
  fun n => match n with
           | O => Some (Exn OperationalError "Can't connect to MySQL server")
           | _ => None
           end.







(** Proof support: the monad and the updates of the world unfolded; the
    engine's INSERT is kept folded and used through its two cases. *)
Ltac run_py :=
  unfold bind, ret, raise, effect, gets, try_finally, try_except,
    emit, set_rows, set_auto_increment, set_ddl_calls, set_heap, set_sessions;
  cbn.

#[local] Arguments engine_insert : simpl never.

(** The seconds slept in a run of events. *)
Fixpoint slept (t : list event) : N :=
  match t with
  | [] => 0%N
  | EvSleep seconds :: t' => (seconds + slept t')%N
  | _ :: t' => slept t'
  end.

(** The number of POSTs of a run of requests that were answered with
    success, the responses standing in the order of the requests. *)
Fixpoint created (reqs : list request) (resps : list response) : nat :=
  match reqs, resps with
  | POST_entries _ :: reqs', Response200 _ :: resps' => S (created reqs' resps')
  | _ :: reqs', _ :: resps' => created reqs' resps'
  | _, _ => O
  end.

(** * Properties *)

(** ** The retry loop *)

Lemma after_init_0 w : after_init w 0 [] = w.
Proof.
  destruct w; unfold after_init; simpl.
  rewrite Nat.add_0_r, app_nil_r. reflexivity.
Qed.

Lemma after_init_after_init w c1 t1 c2 t2 :
  after_init (after_init w c1 t1) c2 t2 = after_init w (c1 + c2) (t1 ++ t2).
Proof.
  unfold after_init; simpl. rewrite Nat.add_assoc, app_assoc. reflexivity.
Qed.

Lemma connection_fails_shift w k t :
  connection_fails w (S k) -> connection_fails (after_init w 1 t) k.
Proof.
  intros H i Hi. simpl.
  destruct (H (S i)) as [e He]; [lia |].
  exists e. replace (ddl_calls w + 1 + i)%nat with (ddl_calls w + S i)%nat by lia.
  exact He.
Qed.

(** One turn of the loop whose attempt fails at connection level and is
    not the last one. *)
Lemma init_db_loop_retry retries delay attempt rest w e :
  ddl_outcome w (ddl_calls w) = Some e ->
  isinstance e OperationalError = true ->
  attempt < retries - 1 ->
  init_db_loop retries delay (attempt :: rest) w
  = init_db_loop retries delay rest
      (after_init w 1 [EvCreateAll; EvPrint (MsgRetrying (attempt + 1) delay); EvSleep delay]).
Proof.
  intros Ho Hi Hlt.
  cbn [init_db_loop]. unfold bind at 1, try_except, bind at 1, create_all.
  rewrite Ho, Hi.
  apply Z.ltb_lt in Hlt. rewrite Hlt.
  cbn. f_equal. unfold after_init, emit, set_ddl_calls; cbn.
  rewrite <- !app_assoc. cbn. rewrite Nat.add_1_r. reflexivity.
Qed.

(** [k] such turns in a row. *)
Lemma init_db_loop_retries retries delay k : forall a n w,
  connection_fails w k ->
  (k <= n)%nat ->
  Z.of_nat (a + k) <= retries - 1 ->
  init_db_loop retries delay (map Z.of_nat (seq a n)) w
  = init_db_loop retries delay (map Z.of_nat (seq (a + k) (n - k)))
      (after_init w k (retry_trace delay (Z.of_nat a) k)).
Proof.
  induction k as [| k IH]; intros a n w Hf Hk Ha.
  - rewrite Nat.add_0_r, Nat.sub_0_r. cbn [retry_trace]. rewrite after_init_0. reflexivity.
  - destruct n as [| n]; [lia |].
    cbn [seq map].
    destruct (Hf 0%nat) as [e [He Hi]]; [lia |].
    rewrite Nat.add_0_r in He.
    rewrite (init_db_loop_retry _ _ _ _ _ e He Hi) by lia.
    rewrite (IH (S a) n) by (try apply connection_fails_shift; try assumption; lia).
    rewrite after_init_after_init.
    replace (S a + k)%nat with (a + S k)%nat by lia.
    replace (S n - S k)%nat with (n - k)%nat by lia.
    cbn [retry_trace].
    replace (Z.of_nat (S a)) with (Z.of_nat a + 1) by lia.
    reflexivity.
Qed.

(** The turn whose attempt reaches the engine. *)
Lemma init_db_loop_success retries delay attempt rest w :
  ddl_outcome w (ddl_calls w) = None ->
  init_db_loop retries delay (attempt :: rest) w
  = (Return tt, after_init w 1 [EvCreateAll; EvPrint (MsgInitialized (attempt + 1))]).
Proof.
  intros Ho.
  cbn [init_db_loop]. unfold bind at 1, try_except, bind at 1, create_all.
  rewrite Ho. cbn. f_equal. unfold after_init, emit, set_ddl_calls; cbn.
  rewrite <- !app_assoc. cbn. rewrite Nat.add_1_r. reflexivity.
Qed.

(** The last attempt fails at connection level. *)
Lemma init_db_loop_give_up retries delay attempt rest w e :
  ddl_outcome w (ddl_calls w) = Some e ->
  isinstance e OperationalError = true ->
  retries - 1 <= attempt ->
  init_db_loop retries delay (attempt :: rest) w
  = (Raise e, after_init w 1 [EvCreateAll; EvPrint (MsgGivingUp retries)]).
Proof.
  intros Ho Hi Hge.
  cbn [init_db_loop]. unfold bind at 1, try_except, bind at 1, create_all.
  rewrite Ho, Hi.
  apply Z.ltb_ge in Hge. rewrite Hge.
  cbn. f_equal. unfold after_init, emit, set_ddl_calls; cbn.
  rewrite <- !app_assoc. cbn. rewrite Nat.add_1_r. reflexivity.
Qed.

(** An attempt raises something that is not an [OperationalError]. *)
Lemma init_db_loop_other retries delay attempt rest w e :
  ddl_outcome w (ddl_calls w) = Some e ->
  isinstance e OperationalError = false ->
  init_db_loop retries delay (attempt :: rest) w
  = (Raise e, after_init w 1 [EvCreateAll]).
Proof.
  intros Ho Hi.
  cbn [init_db_loop]. unfold bind at 1, try_except, bind at 1, create_all.
  rewrite Ho, Hi.
  cbn. f_equal. unfold after_init, emit, set_ddl_calls; cbn.
  rewrite Nat.add_1_r. reflexivity.
Qed.

(** Whatever the attempts meet, the loop only calls [create_all], prints
    and sleeps: the world it leaves is the one it found after some calls,
    at most one for each turn, and at least one when there is a turn. *)
Lemma init_db_loop_world retries delay attempts : forall w,
  exists c t,
    snd (init_db_loop retries delay attempts w) = after_init w c t /\
    (c <= length attempts)%nat /\
    (attempts <> [] -> exists t', t = EvCreateAll :: t').
Proof.
  induction attempts as [| attempt rest IH]; intros w.
  - exists 0%nat, []. cbn. rewrite after_init_0. split; [reflexivity | split; [lia | congruence]].
  - destruct (ddl_outcome w (ddl_calls w)) as [e |] eqn:Ho.
    + destruct (isinstance e OperationalError) eqn:Hi.
      * destruct (Z.lt_ge_cases attempt (retries - 1)) as [Hlt | Hge].
        -- rewrite (init_db_loop_retry _ _ _ _ _ e Ho Hi Hlt).
           destruct (IH (after_init w 1
             [EvCreateAll; EvPrint (MsgRetrying (attempt + 1) delay); EvSleep delay]))
             as (c & t & Hw & Hc & _).
           rewrite Hw, after_init_after_init.
           eexists _, _. split; [reflexivity |]. split; [cbn; lia |].
           intros _. eexists. cbn. reflexivity.
        -- rewrite (init_db_loop_give_up _ _ _ _ _ e Ho Hi Hge).
           eexists _, _. split; [reflexivity |]. split; [cbn; lia |].
           intros _. eexists. reflexivity.
      * rewrite (init_db_loop_other _ _ _ _ _ e Ho Hi).
        eexists _, _. split; [reflexivity |]. split; [cbn; lia |].
        intros _. eexists. reflexivity.
    + rewrite (init_db_loop_success _ _ _ _ _ Ho).
      eexists _, _. split; [reflexivity |]. split; [cbn; lia |].
      intros _. eexists. reflexivity.
Qed.

Lemma range_length n : length (range n) = Z.to_nat n.
Proof. unfold range. rewrite length_map, length_seq. reflexivity. Qed.

Lemma connection_fails_le w k k' :
  (k' <= k)%nat -> connection_fails w k -> connection_fails w k'.
Proof. intros Hle H i Hi. apply H. lia. Qed.

Lemma init_db_calls_bound retries delay w :
  (ddl_calls (snd (init_db retries delay w)) <= ddl_calls w + Z.to_nat retries)%nat.
Proof.
  unfold init_db.
  destruct (init_db_loop_world retries delay (range retries) w)
    as (c & t & Hw & Hc & _).
  rewrite Hw. cbn. rewrite range_length in Hc. lia.
Qed.


Lemma init_db_returns retries delay w k :
  (k < Z.to_nat retries)%nat ->
  connection_fails w k ->
  ddl_outcome w (ddl_calls w + k) = None ->
  init_db retries delay w
  = (Return tt,
     after_init w (S k)
       (retry_trace delay 0 k
          ++ [EvCreateAll; EvPrint (MsgInitialized (Z.of_nat k + 1))])).
Proof.
  intros Hk Hf Ho. unfold init_db, range.
  rewrite (init_db_loop_retries retries delay k 0 _ w Hf) by lia.
  destruct (Z.to_nat retries - k)%nat as [| m] eqn:Hm; [lia |].
  cbn [seq map].
  rewrite init_db_loop_success by (cbn; exact Ho).
  rewrite after_init_after_init.
  replace (k + 1)%nat with (S k) by lia.
  replace (Z.of_nat (0 + k)) with (Z.of_nat k) by (f_equal; lia).
  reflexivity.
Qed.

Lemma init_db_gives_up retries delay w :
  1 <= retries ->
  connection_fails w (Z.to_nat retries) ->
  exists e, ddl_outcome w (ddl_calls w + (Z.to_nat retries - 1)) = Some e
    /\ init_db retries delay w
       = (Raise e,
          after_init w (Z.to_nat retries)
            (retry_trace delay 0 (Z.to_nat retries - 1)
               ++ [EvCreateAll; EvPrint (MsgGivingUp retries)])).
Proof.
  intros Hr Hf. unfold init_db, range.
  set (n := Z.to_nat retries) in *.
  destruct (Hf (n - 1)%nat) as [e [He Hi]]; [lia |].
  exists e. split; [exact He |].
  rewrite (init_db_loop_retries retries delay (n - 1) 0 n w) by
    (try (apply (connection_fails_le w n); [lia | exact Hf]); lia).
  replace (n - (n - 1))%nat with 1%nat by lia.
  cbn [seq map].
  rewrite (init_db_loop_give_up _ _ _ _ _ e) by (cbn; try assumption; lia).
  rewrite after_init_after_init.
  replace (n - 1 + 1)%nat with n by lia.
  reflexivity.
Qed.









(** The engine is reached at the second attempt: one wait of two
    seconds, two calls, and [init_db] returns. *)
Example init_db_second_attempt :
  init_db 5 2 (world_of answers_second [] 1)
  = (Return tt,
     after_init (world_of answers_second [] 1) 2
       [EvCreateAll; EvPrint (MsgRetrying 1 2); EvSleep 2;
        EvCreateAll; EvPrint (MsgInitialized 2)]).
Proof. reflexivity. Qed.

(** With no attempt to make, [init_db] returns without a call. *)
Example init_db_no_attempt :
  init_db 0 2 (world_of unreachable [] 1) = (Return tt, world_of unreachable [] 1).
Proof. reflexivity. Qed.

(** ** The routes, case by case *)

Lemma max_id_bound rs : Forall (fun r => row_id r <= max_id rs) rs.
Proof.
  induction rs as [| r rs IH]; constructor; cbn [max_id fold_right].
  - fold (max_id rs). lia.
  - fold (max_id rs). eapply Forall_impl; [exact IH |].
    intros r' Hr'. cbn beta in *. lia.
Qed.

Lemma next_id_fresh w : Forall (fun r => row_id r < next_id w) (rows w).
Proof.
  eapply Forall_impl; [apply max_id_bound |].
  intros r Hr. cbn beta in *. unfold next_id. lia.
Qed.

Lemma find_fresh_row (rs : list Row) i c :
  Forall (fun r => row_id r < i) rs ->
  find (fun r => row_id r =? i) (rs ++ [mkRow i c]) = Some (mkRow i c).
Proof.
  induction 1 as [| r rs Hr _ IH]; cbn.
  - rewrite Z.eqb_refl. reflexivity.
  - rewrite (proj2 (Z.eqb_neq _ _)) by lia. exact IH.
Qed.

Lemma alter_last {A} (f : A -> A) (l : list A) (x : A) :
  alter f (length l) (l ++ [x]) = l ++ [f x].
Proof.
  replace (length l) with (length l + 0)%nat at 1 by lia.
  rewrite alter_app_r. reflexivity.
Qed.

Lemma insert_last {A} (l : list A) (x y : A) :
  <[length l := y]> (l ++ [x]) = l ++ [y].
Proof.
  replace (length l) with (length l + 0)%nat at 1 by lia.
  rewrite insert_app_r. reflexivity.
Qed.

Lemma lookup_last {A} (l : list A) (x : A) :
  (l ++ [x]) !! length l = Some x.
Proof. apply list_lookup_middle. reflexivity. Qed.

Lemma post_entries_invalid body w :
  EntryIn.validate body = None ->
  post_entries body w
  = (Response422, after_request w (rows w) (auto_increment w) [] []).
Proof.
  intros Hv. unfold post_entries, get_db, SessionLocal, db_close. rewrite Hv.
  run_py. unfold after_request. cbn.
  rewrite alter_last, app_nil_r, <- !app_assoc. reflexivity.
Qed.

Lemma engine_insert_ok c w :
  (String.length c <= content_max_length)%nat ->
  engine_insert c w
  = (Return (next_id w),
     mkWorld (rows w ++ [mkRow (next_id w) c]) (next_id w + 1)
             (ddl_outcome w) (ddl_calls w) (heap w) (sessions w)
             (trace w ++ [EvInsert c])).
Proof.
  intros Hlen. apply Nat.ltb_ge in Hlen.
  unfold engine_insert. unfold bind at 1, effect at 1. rewrite Hlen.
  reflexivity.
Qed.

Lemma engine_insert_too_long c w :
  (content_max_length < String.length c)%nat ->
  engine_insert c w
  = (Raise (Exn DataError "Data too long for column 'content'"),
     emit (EvInsert c) w).
Proof.
  intros Hlen. apply Nat.ltb_lt in Hlen.
  unfold engine_insert. unfold bind at 1, effect at 1. rewrite Hlen.
  reflexivity.
Qed.

Lemma post_entries_created body w c :
  EntryIn.validate body = Some (EntryIn.mk c) ->
  (String.length c <= content_max_length)%nat ->
  post_entries body w
  = (Response200 (entry_json (next_id w) c),
     after_request w (rows w ++ [mkRow (next_id w) c]) (next_id w + 1)
       [TextEntry.mk (Some (next_id w)) c]
       [EvInsert c; EvCommit; EvSelectById (next_id w)]).
Proof.
  intros Hv Hlen.
  unfold post_entries, get_db, SessionLocal, db_close, create_entry, TextEntry_new,
    db_add, db_commit, session_get, db_refresh, serialize_entry, heap_get, heap_set,
    engine_select_by_id.
  rewrite Hv. run_py.
  rewrite !alter_last. cbn. rewrite lookup_last. cbn.
  unfold heap_get, heap_set. run_py.
  rewrite lookup_last. cbn.
  rewrite engine_insert_ok by assumption. cbn.
  repeat match goal with
         | |- context [next_id (mkWorld ?r ?a ?o ?d ?h ?s ?t)] =>
             change (next_id (mkWorld r a o d h s t)) with (Z.max a (max_id r + 1))
         end.
  fold (next_id w).
  rewrite !insert_last, !alter_last, !lookup_last. cbn.
  rewrite find_fresh_row by apply next_id_fresh. cbn.
  rewrite !insert_last, !lookup_last. cbn.
  rewrite !alter_last.
  unfold after_request, entry_json. cbn. rewrite <- !app_assoc. reflexivity.
Qed.

Lemma post_entries_too_long body w c :
  EntryIn.validate body = Some (EntryIn.mk c) ->
  (content_max_length < String.length c)%nat ->
  post_entries body w
  = (Response500 (Exn DataError "Data too long for column 'content'"),
     after_request w (rows w) (auto_increment w)
       [TextEntry.mk None c] [EvInsert c]).
Proof.
  intros Hv Hlen.
  unfold post_entries, get_db, SessionLocal, db_close, create_entry, TextEntry_new,
    db_add, db_commit, session_get, db_refresh, serialize_entry, heap_get, heap_set,
    engine_select_by_id.
  rewrite Hv. run_py.
  rewrite !alter_last. cbn. rewrite lookup_last. cbn.
  unfold heap_get, heap_set. run_py.
  rewrite lookup_last. cbn.
  rewrite engine_insert_too_long by assumption. cbn.
  rewrite !alter_last.
  unfold after_request. cbn. rewrite <- !app_assoc. reflexivity.
Qed.

Lemma serialize_entries_rows rs : forall h h' w0,
  heap w0 = h ++ map TextEntry_of_row rs ++ h' ->
  serialize_entries (seq (length h) (length rs)) w0 = (Return (map row_json rs), w0).
Proof.
  induction rs as [| r rs IH]; intros h h' w0 Hh; [reflexivity |].
  cbn [length seq serialize_entries map].
  unfold bind at 1, serialize_entry, heap_get. run_py.
  rewrite Hh. cbn [map app]. rewrite list_lookup_middle by reflexivity. cbn.
  specialize (IH (h ++ [TextEntry_of_row r]) h' w0).
  rewrite length_app, Nat.add_1_r in IH.
  rewrite IH by (rewrite Hh, <- app_assoc; reflexivity).
  reflexivity.
Qed.

Lemma get_entries_spec w :
  get_entries w
  = (Response200 (JArr (map row_json (rows w))),
     after_request w (rows w) (auto_increment w)
       (map TextEntry_of_row (rows w)) [EvSelectAll]).
Proof.
  unfold get_entries, get_db, SessionLocal, db_close, read_entries, db_query_all,
    engine_select_all.
  run_py.
  erewrite (serialize_entries_rows (rows w) (heap w) [])
    by (cbn; rewrite app_nil_r; reflexivity).
  cbn. rewrite alter_last.
  unfold after_request. cbn. rewrite <- !app_assoc. reflexivity.
Qed.


(** ** Requests *)

(** C2.  A POST whose body is not a JSON object with a string in its
    field [content] (the field is missing, or its value is of another
    type) is answered with the validation error; nothing is sent to the
    engine and the table and its counter are as before.  (The request's
    session is opened and closed around the validation.) *)
Theorem post_without_string_content_rejected (body : json) (w : World) :
  (forall fields s, body = JObj fields -> fields !! "content"%string <> Some (JStr s)) ->
  fst (post_entries body w) = Response422
  /\ rows (snd (post_entries body w)) = rows w
  /\ auto_increment (snd (post_entries body w)) = auto_increment w
  /\ exists t, trace (snd (post_entries body w)) = trace w ++ t
               /\ Forall (fun e => is_storage_op e = false) t.
Proof.
  intros H.
  assert (EntryIn.validate body = None) as Hv.
  { unfold EntryIn.validate.
    destruct body as [| | | | | fields]; try reflexivity.
    destruct (fields !! "content"%string) as [v |] eqn:Hf; [| reflexivity].
    destruct v; try reflexivity.
    exfalso. eapply H; [reflexivity | exact Hf]. }
  rewrite (post_entries_invalid _ _ Hv). cbn.
  repeat split.
  eexists. split; [reflexivity |].
  repeat constructor.
Qed.

Lemma post_without_string_content_rejected_witness :
  fst (post_entries (JObj {[ "content"%string := JNum 7 ]}) empty_world) = Response422
  /\ fst (post_entries (JObj {[ "title"%string := JStr "no content" ]}) empty_world)
     = Response422
  /\ rows (snd (post_entries (JObj {[ "content"%string := JNum 7 ]}) empty_world)) = [].
Proof.
  destruct (post_without_string_content_rejected
              (JObj {[ "content"%string := JNum 7 ]}) empty_world) as (H1 & H2 & _).
  { intros fields s Hb. inversion Hb. subst fields. vm_compute. discriminate. }
  destruct (post_without_string_content_rejected
              (JObj {[ "title"%string := JStr "no content" ]}) empty_world) as (H3 & _).
  { intros fields s Hb. inversion Hb. subst fields. vm_compute. discriminate. }
  split; [exact H1 | split; [exact H3 | exact H2]].
Defined.







(** Every request leaves the world as [after_request] describes. *)
Lemma handle_after_request r w :
  exists resp rs next objs t,
    handle r w = (resp, after_request w rs next objs t).
Proof.
  destruct r as [body |]; cbn [handle].
  - destruct (EntryIn.validate body) as [[c] |] eqn:Hv.
    + destruct (Nat.le_gt_cases (String.length c) content_max_length) as [Hle | Hgt].
      * rewrite (post_entries_created _ _ _ Hv Hle). eauto 6.
      * rewrite (post_entries_too_long _ _ _ Hv Hgt). eauto 6.
    + rewrite (post_entries_invalid _ _ Hv). eauto 6.
  - rewrite get_entries_spec. eauto 6.
Qed.

Lemma entry_invariant_insert rs i c :
  entry_invariant rs ->
  (String.length c <= content_max_length)%nat ->
  Forall (fun r => row_id r < i) rs ->
  entry_invariant (rs ++ [mkRow i c]).
Proof.
  intros [Hlen Hnd] Hc Hi. split.
  - apply Forall_app. split; [exact Hlen |]. constructor; [exact Hc | constructor].
  - rewrite map_app. cbn. apply NoDup_app. split; [exact Hnd |]. split.
    + intros x Hx Hx'. apply list_elem_of_singleton in Hx'. subst x.
      apply list_elem_of_fmap in Hx. destruct Hx as (r & Hr & Hin).
      rewrite Forall_forall in Hi. specialize (Hi r Hin). lia.
    + apply NoDup_singleton.
Qed.

Lemma post_entries_invariant body w :
  entry_invariant (rows w) -> entry_invariant (rows (snd (post_entries body w))).
Proof.
  intros Hinv.
  destruct (EntryIn.validate body) as [[c] |] eqn:Hv.
  - destruct (Nat.le_gt_cases (String.length c) content_max_length) as [Hle | Hgt].
    + rewrite (post_entries_created _ _ _ Hv Hle). cbn.
      apply entry_invariant_insert; [exact Hinv | exact Hle | apply next_id_fresh].
    + rewrite (post_entries_too_long _ _ _ Hv Hgt). exact Hinv.
  - rewrite (post_entries_invalid _ _ Hv). exact Hinv.
Qed.

Lemma get_entries_invariant w :
  entry_invariant (rows w) -> entry_invariant (rows (snd (get_entries w))).
Proof. intros Hinv. rewrite get_entries_spec. exact Hinv. Qed.

Lemma serve_invariant reqs : forall w,
  entry_invariant (rows w) -> entry_invariant (rows (snd (serve reqs w))).
Proof.
  induction reqs as [| r reqs IH]; intros w Hinv; [exact Hinv |].
  cbn [serve].
  destruct (handle r w) as [resp w'] eqn:Hh.
  specialize (IH w'). destruct (serve reqs w') as [resps w''].
  cbn in *. apply IH.
  replace w' with (snd (handle r w)) by (rewrite Hh; reflexivity).
  destruct r; [apply post_entries_invariant | apply get_entries_invariant]; exact Hinv.
Qed.

(** C8.  The data-model invariant (every content fits its 255
    characters, no id occurs twice) is kept by the create operation,
    whatever the body, and by the list operation, and so by every
    sequence of requests. *)
Theorem entry_invariant_preserved (w : World) :
  entry_invariant (rows w) ->
  (forall body, entry_invariant (rows (snd (post_entries body w))))
  /\ entry_invariant (rows (snd (get_entries w)))
  /\ (forall reqs, entry_invariant (rows (snd (serve reqs w)))).
Proof.
  intros Hinv. split; [| split].
  - intros body. apply post_entries_invariant. exact Hinv.
  - apply get_entries_invariant. exact Hinv.
  - intros reqs. apply serve_invariant. exact Hinv.
Qed.

Lemma entry_invariant_preserved_witness :
  entry_invariant (rows empty_world)
  /\ entry_invariant
       (rows (snd (serve [POST_entries (body_of "a"); GET_entries;
                          POST_entries (body_of "a")] empty_world))).
Proof.
  assert (entry_invariant (rows empty_world)) as H0.
  { split; [constructor | constructor]. }
  split; [exact H0 |].
  apply (entry_invariant_preserved empty_world H0).
Defined.

(** C9.  The session of a request is closed on every exit.  Whatever
    runs at the [yield] of [get_db], and whether it returns or raises,
    its outcome is handed on and [db.close()] is the last thing that
    happens; and each request, answered with success or with an error,
    leaves the session it opened closed. *)
Theorem session_closed_on_every_exit :
  (forall (A : Type) (k : nat -> M A) (w : World),
     let db := length (sessions w) in
     let body := k db (session_opened w) in
     fst (get_db k w) = fst body
     /\ trace (snd (get_db k w)) = trace (snd body) ++ [EvSessionClose db]
     /\ sessions (snd (get_db k w))
        = alter (fun _ => mkSession true []) db (sessions (snd body)))
  /\ (forall (r : request) (w : World),
     let db := length (sessions w) in
     sessions (snd (handle r w)) = sessions w ++ [mkSession true []]
     /\ exists t, trace (snd (handle r w))
                  = trace w ++ EvSessionOpen db :: t ++ [EvSessionClose db]).
Proof.
  split.
  - intros A k w db body. subst db body.
    unfold get_db, SessionLocal, db_close. run_py.
    unfold session_opened, emit, set_sessions. cbn.
    destruct (k _ _) as [r w']. cbn. repeat split.
  - intros r w db.
    destruct (handle_after_request r w) as (resp & rs & next & objs & t & ->).
    cbn. split; [reflexivity |]. exists t. reflexivity.
Qed.

(** A request that raises: the content does not fit the column, the
    answer is the server error, and the session is closed all the same. *)
Example post_too_long_closes_session :
  let c := string_of_list_ascii (repeat "x"%char 256) in
  exists e,
    post_entries (body_of c) empty_world
    = (Response500 e,
       after_request empty_world [] 1 [TextEntry.mk None c] [EvInsert c]).
Proof. eexists. vm_compute. reflexivity. Qed.

(** ** Startup *)

Lemma serve_keeps_engine_calls reqs : forall w,
  ddl_calls (snd (serve reqs w)) = ddl_calls w
  /\ length (fst (serve reqs w)) = length reqs.
Proof.
  induction reqs as [| r reqs IH]; intros w; [split; reflexivity |].
  cbn [serve].
  destruct (handle_after_request r w) as (resp & rs & next & objs & t & ->).
  specialize (IH (after_request w rs next objs t)).
  destruct (serve reqs _) as [resps w'']. cbn in *.
  destruct IH as [-> ->]. split; reflexivity.
Qed.

(** C7.  Once the module is loaded, the startup hook runs [init_db]
    with 5 attempts and a delay of 2 seconds, once, and before any
    request: the requests are served from the world the hook left, and
    serving them never calls the table-creation step again.  When the
    hook raises, and so when the engine could not be reached in 5
    attempts, the run ends with that error: no request is answered, no
    session is opened, the table is untouched. *)
Theorem startup_runs_init_db_once
    (environ : gmap string string) (eng : Engine) (reqs : list request) (w : World) :
  load_module environ = Return eng ->
  startup_event w = init_db 5 2 w
  /\ (ddl_calls (snd (startup_event w)) <= ddl_calls w + 5)%nat
  /\ (connection_fails w 5 ->
        exists e,
          run environ reqs w
          = (StartupFailed e,
             after_init w 5
               (retry_trace 2 0 4 ++ [EvCreateAll; EvPrint (MsgGivingUp 5)])))
  /\ (forall e w1, startup_event w = (Raise e, w1) ->
        run environ reqs w = (StartupFailed e, w1)
        /\ sessions w1 = sessions w /\ rows w1 = rows w)
  /\ (forall w1, startup_event w = (Return tt, w1) ->
        run environ reqs w = (Served (fst (serve reqs w1)), snd (serve reqs w1))
        /\ length (fst (serve reqs w1)) = length reqs
        /\ ddl_calls (snd (serve reqs w1)) = ddl_calls w1).
Proof.
  intros Hload. unfold run. rewrite Hload.
  split; [reflexivity |].
  split; [apply (init_db_calls_bound 5 2 w) |].
  split; [| split].
  - intros Hf.
    destruct (init_db_gives_up 5 2 w ltac:(lia) Hf) as (e & _ & He).
    exists e. unfold startup_event, init_db_default_retries, init_db_default_delay.
    rewrite He. reflexivity.
  - intros e w1 Hs. rewrite Hs. split; [reflexivity |].
    unfold startup_event, init_db in Hs.
    destruct (init_db_loop_world init_db_default_retries init_db_default_delay
                (range init_db_default_retries) w) as (c & t & Hw & _).
    rewrite Hs in Hw. cbn in Hw. subst w1. split; reflexivity.
  - intros w1 Hs. rewrite Hs.
    destruct (serve_keeps_engine_calls reqs w1) as [Hc Hl].
    destruct (serve reqs w1) as [resps w2]. cbn in *.
    split; [reflexivity |]. split; assumption.
Qed.

Lemma startup_runs_init_db_once_witness :
  exists e,
    run example_environ [GET_entries] (world_of unreachable [] 1)
    = (StartupFailed e,
       after_init (world_of unreachable [] 1) 5
         (retry_trace 2 0 4 ++ [EvCreateAll; EvPrint (MsgGivingUp 5)])).
Proof.
  destruct (startup_runs_init_db_once example_environ
              (mkEngine (DATABASE_URL example_environ) true)
              [GET_entries] (world_of unreachable [] 1))
    as (_ & _ & H & _).
  - vm_compute. reflexivity.
  - apply H. intros i Hi. eexists. split; reflexivity.
Defined.

(** ** Configuration and the engine constructor *)






(** * Further properties *)

(** ** More on the retry loop *)

Lemma slept_app t1 t2 : slept (t1 ++ t2) = (slept t1 + slept t2)%N.
Proof.
  induction t1 as [| e t1 IH]; [reflexivity |].
  destruct e; cbn; rewrite ?IH; lia.
Qed.

(** X1.  With a budget of zero or fewer attempts the loop has no turn:
    [init_db] returns at once, whatever the engine would have answered,
    and nothing is called, printed or slept. *)
Theorem init_db_without_budget (retries : Z) (delay : N) (w : World) :
  retries <= 0 ->
  init_db retries delay w = (Return tt, w).
Proof.
  intros Hr. unfold init_db, range.
  replace (Z.to_nat retries) with 0%nat by lia.
  reflexivity.
Qed.

Lemma init_db_without_budget_witness :
  -3 <= 0
  /\ init_db (-3) 2 (world_of unreachable [] 1) = (Return tt, world_of unreachable [] 1).
Proof.
  split; [lia |].
  apply (init_db_without_budget (-3) 2 (world_of unreachable [] 1)). lia.
Defined.

Lemma init_db_loop_slept retries delay n : forall a w,
  retries <= Z.of_nat (a + n) ->
  exists c t,
    snd (init_db_loop retries delay (map Z.of_nat (seq a n)) w) = after_init w c t
    /\ (c <= n)%nat
    /\ (slept t <= N.of_nat (n - 1) * delay)%N.
Proof.
  induction n as [| n IH]; intros a w Hr.
  - exists 0%nat, []. cbn. rewrite after_init_0. repeat split; lia.
  - cbn [seq map].
    destruct (ddl_outcome w (ddl_calls w)) as [e |] eqn:Ho.
    + destruct (isinstance e OperationalError) eqn:Hi.
      * destruct (Z.lt_ge_cases (Z.of_nat a) (retries - 1)) as [Hlt | Hge].
        -- rewrite (init_db_loop_retry _ _ _ _ _ e Ho Hi Hlt).
           destruct (IH (S a) (after_init w 1
             [EvCreateAll; EvPrint (MsgRetrying (Z.of_nat a + 1) delay); EvSleep delay]))
             as (c & t & Hw & Hc & Hs); [lia |].
           rewrite Hw, after_init_after_init.
           eexists _, _. split; [reflexivity |]. split; [lia |].
           rewrite slept_app. cbn [slept].
           destruct n as [| n']; [lia |].
           replace (S (S n') - 1)%nat with (S (S n' - 1)) by lia.
           rewrite Nat2N.inj_succ. lia.
        -- rewrite (init_db_loop_give_up _ _ _ _ _ e Ho Hi Hge).
           eexists _, _. split; [reflexivity |]. split; [lia |]. cbn. lia.
      * rewrite (init_db_loop_other _ _ _ _ _ e Ho Hi).
        eexists _, _. split; [reflexivity |]. split; [lia |]. cbn. lia.
    + rewrite (init_db_loop_success _ _ _ _ _ Ho).
      eexists _, _. split; [reflexivity |]. split; [lia |]. cbn. lia.
Qed.

(** X2.  Whatever the engine answers, [init_db] touches nothing but
    the schema call, the console and the clock: table, counter,
    instances and sessions are as before, and the time it sleeps is at
    most [retries - 1] times [delay]. *)
Theorem init_db_effects_bounded (retries : Z) (delay : N) (w : World) :
  exists c t,
    snd (init_db retries delay w) = after_init w c t
    /\ (c <= Z.to_nat retries)%nat
    /\ (slept t <= N.of_nat (Z.to_nat retries - 1) * delay)%N
    /\ rows (snd (init_db retries delay w)) = rows w
    /\ auto_increment (snd (init_db retries delay w)) = auto_increment w
    /\ heap (snd (init_db retries delay w)) = heap w
    /\ sessions (snd (init_db retries delay w)) = sessions w.
Proof.
  unfold init_db, range.
  destruct (init_db_loop_slept retries delay (Z.to_nat retries) 0 w)
    as (c & t & Hw & Hc & Hs); [lia |].
  exists c, t. rewrite Hw. repeat split; assumption.
Qed.

(** A loop that returns was either out of turns or reached the engine
    after some connection-level failures. *)
Lemma init_db_loop_return_inv retries delay n : forall a w w',
  retries <= Z.of_nat (a + n) ->
  init_db_loop retries delay (map Z.of_nat (seq a n)) w = (Return tt, w') ->
  n = 0%nat
  \/ exists k, (k < n)%nat /\ connection_fails w k
               /\ ddl_outcome w (ddl_calls w + k) = None.
Proof.
  induction n as [| n IH]; intros a w w' Hr Hret; [left; reflexivity |].
  right. cbn [seq map] in Hret.
  destruct (ddl_outcome w (ddl_calls w)) as [e |] eqn:Ho.
  - destruct (isinstance e OperationalError) eqn:Hi.
    + destruct (Z.lt_ge_cases (Z.of_nat a) (retries - 1)) as [Hlt | Hge].
      * rewrite (init_db_loop_retry _ _ _ _ _ e Ho Hi Hlt) in Hret.
        apply IH in Hret; [| lia].
        destruct Hret as [-> | (k & Hk & Hf & Hn)]; [lia |].
        exists (S k). split; [lia |]. split.
        -- intros i Hi'. destruct i as [| i].
           ++ exists e. rewrite Nat.add_0_r. split; assumption.
           ++ destruct (Hf i) as (e' & He' & Hie'); [lia |].
              exists e'. cbn in He'.
              replace (ddl_calls w + S i)%nat with (ddl_calls w + 1 + i)%nat by lia.
              split; assumption.
        -- cbn in Hn.
           replace (ddl_calls w + S k)%nat with (ddl_calls w + 1 + k)%nat by lia.
           exact Hn.
      * rewrite (init_db_loop_give_up _ _ _ _ _ e Ho Hi Hge) in Hret. discriminate.
    + rewrite (init_db_loop_other _ _ _ _ _ e Ho Hi) in Hret. discriminate.
  - exists 0%nat. split; [lia |]. split.
    + intros i Hi. lia.
    + rewrite Nat.add_0_r. exact Ho.
Qed.

(** X3.  With a budget of at least one attempt, [init_db] returns only
    when the schema call went through: some attempt within the budget
    reached the engine, and every attempt before it failed at connection
    level. *)
Theorem init_db_returns_only_after_success
    (retries : Z) (delay : N) (w w' : World) :
  1 <= retries ->
  init_db retries delay w = (Return tt, w') ->
  exists k, (k < Z.to_nat retries)%nat
            /\ connection_fails w k
            /\ ddl_outcome w (ddl_calls w + k) = None
            /\ ddl_calls w' = (ddl_calls w + S k)%nat.
Proof.
  intros Hr Hret.
  destruct (init_db_loop_return_inv retries delay (Z.to_nat retries) 0 w w')
    as [H0 | (k & Hk & Hf & Hn)]; [lia | exact Hret | lia |].
  exists k. split; [exact Hk |]. split; [exact Hf |]. split; [exact Hn |].
  rewrite (init_db_returns retries delay w k Hk Hf Hn) in Hret.
  inversion Hret. reflexivity.
Qed.

Lemma init_db_returns_only_after_success_witness :
  exists k, (k < Z.to_nat 5)%nat
            /\ connection_fails (world_of answers_second [] 1) k
            /\ ddl_outcome (world_of answers_second [] 1)
                 (ddl_calls (world_of answers_second [] 1) + k) = None
            /\ ddl_calls (snd (init_db 5 2 (world_of answers_second [] 1)))
               = (ddl_calls (world_of answers_second [] 1) + S k)%nat.
Proof.
  apply (init_db_returns_only_after_success 5 2 (world_of answers_second [] 1)).
  - lia.
  - reflexivity.
Defined.

(** X4.  A larger budget never loses a success: when [init_db] returns
    with a budget of at least one attempt, it returns in the same way,
    with the same effects, for every larger budget. *)
Theorem init_db_budget_monotone
    (retries retries' : Z) (delay : N) (w w' : World) :
  1 <= retries -> retries <= retries' ->
  init_db retries delay w = (Return tt, w') ->
  init_db retries' delay w = (Return tt, w').
Proof.
  intros Hr Hle Hret.
  destruct (init_db_loop_return_inv retries delay (Z.to_nat retries) 0 w w')
    as [H0 | (k & Hk & Hf & Hn)]; [lia | exact Hret | lia |].
  rewrite (init_db_returns retries delay w k Hk Hf Hn) in Hret.
  rewrite (init_db_returns retries' delay w k) by (try assumption; lia).
  exact Hret.
Qed.

Lemma init_db_budget_monotone_witness :
  init_db 9 2 (world_of answers_second [] 1)
  = (Return tt, snd (init_db 2 2 (world_of answers_second [] 1))).
Proof.
  apply (init_db_budget_monotone 2 9 2 (world_of answers_second [] 1)).
  - lia.
  - lia.
  - reflexivity.
Defined.




(** ** More on the routes *)



(** What one request does to the table: a POST answered with success
    adds one row at the end, every other request leaves the table as it
    is. *)
Lemma handle_rows r w :
  exists new,
    rows (snd (handle r w)) = rows w ++ new
    /\ length new = created [r] [fst (handle r w)].
Proof.
  destruct r as [body |]; cbn [handle].
  - destruct (EntryIn.validate body) as [[c] |] eqn:Hv.
    + destruct (Nat.le_gt_cases (String.length c) content_max_length) as [Hle | Hgt].
      * rewrite (post_entries_created _ _ _ Hv Hle). cbn.
        eexists. split; reflexivity.
      * rewrite (post_entries_too_long _ _ _ Hv Hgt). cbn.
        exists []. rewrite app_nil_r. split; reflexivity.
    + rewrite (post_entries_invalid _ _ Hv). cbn.
      exists []. rewrite app_nil_r. split; reflexivity.
  - rewrite get_entries_spec. cbn.
    exists []. rewrite app_nil_r. split; reflexivity.
Qed.

(** X6.  The service only ever appends: after any run of requests the
    table is the table from before followed by new rows, exactly one for
    each POST that was answered with success.  No request changes or
    removes a row. *)
Theorem serve_appends_only (reqs : list request) (w : World) :
  exists new,
    rows (snd (serve reqs w)) = rows w ++ new
    /\ length new = created reqs (fst (serve reqs w)).
Proof.
  revert w. induction reqs as [| r reqs IH]; intros w.
  - exists []. cbn. rewrite app_nil_r. split; reflexivity.
  - cbn [serve].
    destruct (handle_rows r w) as (new1 & Hr1 & Hl1).
    destruct (handle r w) as [resp w'] eqn:Hh. cbn [fst snd] in *.
    destruct (IH w') as (new2 & Hr2 & Hl2).
    destruct (serve reqs w') as [resps w'']. cbn [fst snd] in *.
    exists (new1 ++ new2). split.
    + rewrite Hr2, Hr1, app_assoc. reflexivity.
    + rewrite length_app, Hl1, Hl2.
      destruct r as [body |]; destruct resp; reflexivity.
Qed.

(** X9.  No run of requests leaks a session: every request is answered,
    each one has opened one session, and all of them are closed at the
    end, whatever the answers were. *)
Theorem serve_leaves_sessions_closed (reqs : list request) (w : World) :
  length (fst (serve reqs w)) = length reqs
  /\ sessions (snd (serve reqs w))
     = sessions w ++ repeat (mkSession true []) (length reqs).
Proof.
  revert w. induction reqs as [| r reqs IH]; intros w.
  - cbn. rewrite app_nil_r. split; reflexivity.
  - cbn [serve].
    destruct (handle_after_request r w) as (resp & rs & next & objs & t & ->).
    destruct (IH (after_request w rs next objs t)) as [Hl Hs].
    destruct (serve reqs _) as [resps w'']. cbn [fst snd length] in *.
    split; [rewrite Hl; reflexivity |].
    rewrite Hs. cbn [sessions after_request repeat].
    rewrite <- app_assoc. reflexivity.
Qed.

(** ** More on the process *)

(** X13.  Once the module is loaded, requests are served exactly when
    one of the five attempts of the startup hook reaches the engine after
    connection-level failures on the attempts before it; in every other
    case the run ends before the first request. *)
Theorem run_serves_iff_engine_reached
    (environ : gmap string string) (eng : Engine) (reqs : list request) (w : World) :
  load_module environ = Return eng ->
  (exists resps, fst (run environ reqs w) = Served resps)
  <-> (exists k, (k < 5)%nat /\ connection_fails w k
                 /\ ddl_outcome w (ddl_calls w + k) = None).
Proof.
  intros Hload. unfold run. rewrite Hload.
  unfold startup_event, init_db_default_retries, init_db_default_delay.
  split.
  - intros [resps Hs].
    destruct (init_db 5 2 w) as [[[] | e] w1] eqn:Hinit.
    + destruct (init_db_loop_return_inv 5 2 (Z.to_nat 5) 0 w w1)
        as [H0 | (k & Hk & Hf & Hn)]; [lia | exact Hinit | discriminate |].
      exists k. split; [exact Hk |]. split; assumption.
    + discriminate.
  - intros (k & Hk & Hf & Hn).
    rewrite (init_db_returns 5 2 w k) by assumption.
    destruct (serve reqs _) as [resps w2]. exists resps. reflexivity.
Qed.

Lemma run_serves_iff_engine_reached_witness :
  exists resps,
    fst (run example_environ [GET_entries] (world_of answers_second [] 1)) = Served resps.
Proof.
  apply (run_serves_iff_engine_reached example_environ
           (mkEngine (DATABASE_URL example_environ) true)
           [GET_entries] (world_of answers_second [] 1)).
  - vm_compute. reflexivity.
  - exists 1%nat. split; [lia |]. split; [| reflexivity].
    intros i Hi. assert (i = 0%nat) as -> by lia. eexists. split; reflexivity.
Defined.
